(** * aimakerspace/text_utils.py : sliding-window text splitters

    A shallow embedding of [CharacterTextSplitter],
    [MultiSizeTextSplitter] and [TextFileLoader].  Python integers are
    unbounded, hence [Z];
    a [str] is a finite sequence of code points, hence [list char] for an
    arbitrary type [char]; exceptions are values of an error monad; a
    [dict] is an association list that keeps Python's insertion order. *)

From Stdlib Require Import ZArith List String Ascii Lia Bool.
From Stdlib Require Import Decimal DecimalString DecimalPos DecimalZ.
Import ListNotations.

Local Open Scope Z_scope.

(** ** Exceptions *)

Inductive exn : Type :=
| AssertionError (msg : string)
| ValueError (msg : string).

Inductive result (A : Type) : Type :=
| Ok (a : A)
| Raise (e : exn).

Arguments Ok {A} a.
Arguments Raise {A} e.

Definition bind {A B : Type} (m : result A) (k : A -> result B) : result B :=
  match m with
  | Ok a => k a
  | Raise e => Raise e
  end.

Notation "x <- m ;; k" := (bind m (fun x => k))
  (at level 61, m at next level, right associativity).

(** [for x in xs: st = body st x], stopping at the first exception. *)
Fixpoint for_each {A S : Type} (xs : list A) (body : S -> A -> result S)
  (st : S) : result S :=
  match xs with
  | [] => Ok st
  | x :: xs' => st' <- body st x ;; for_each xs' body st'
  end.

(** ** Built-ins: [range], slicing, [str(int)], [dict] *)

(** Number of elements of [range(start, stop, step)] for [step <> 0]. *)
Definition range_length (start stop step : Z) : Z :=
  if 0 <? step
  then (if start <? stop then (stop - start - 1) / step + 1 else 0)
  else (if stop <? start then (start - stop - 1) / (- step) + 1 else 0).

Definition py_range (start stop step : Z) : result (list Z) :=
  if step =? 0
  then Raise (ValueError "range() arg 3 must not be zero")
  else Ok (map (fun k => start + Z.of_nat k * step)
               (seq 0 (Z.to_nat (range_length start stop step)))).

(** A slice bound is counted from the end when negative and then clamped
    to [0 .. len]. *)
Definition adjust_index (i len : Z) : Z :=
  if i <? 0 then Z.max 0 (i + len) else Z.min i len.

(** [s[lo:hi]] *)
Definition py_slice {A : Type} (s : list A) (lo hi : Z) : list A :=
  let len := Z.of_nat (List.length s) in
  let lo' := adjust_index lo len in
  let hi' := adjust_index hi len in
  firstn (Z.to_nat (hi' - lo')) (skipn (Z.to_nat lo') s).

(** [str(n)], the decimal numeral of an integer. *)
Definition str_of_int (n : Z) : string :=
  NilZero.string_of_int (Z.to_int n).

Module Dict.

Definition t (V : Type) : Type := list (string * V).

Definition empty {V : Type} : t V := [].

(** [d[k] = v]: an existing key keeps its position and takes the new
    value, a new key goes last. *)
Fixpoint setitem {V : Type} (k : string) (v : V) (d : t V) : t V :=
  match d with
  | [] => [(k, v)]
  | (k', v') :: d' =>
      if String.eqb k k' then (k', v) :: d'
      else (k', v') :: setitem k v d'
  end.

Fixpoint get {V : Type} (k : string) (d : t V) : option V :=
  match d with
  | [] => None
  | (k', v') :: d' => if String.eqb k k' then Some v' else get k d'
  end.

Definition keys {V : Type} (d : t V) : list string := map fst d.

End Dict.

(** ** CharacterTextSplitter *)

Record CharacterTextSplitter : Type := mkCharacterTextSplitter {
  chunk_size : Z;
  chunk_overlap : Z
}.

Module CharacterTextSplitter.

Definition default_chunk_size : Z := 2000.
Definition default_chunk_overlap : Z := 1000.

(** [__init__]; the [assert] is taken as executed (Python not run with
    [-O]). *)
Definition init (chunk_size chunk_overlap : Z) : result CharacterTextSplitter :=
  if chunk_size >? chunk_overlap
  then Ok (mkCharacterTextSplitter chunk_size chunk_overlap)
  else Raise (AssertionError "Chunk size must be greater than chunk overlap").

Section Split.
Context {char : Type}.

Definition split (self : CharacterTextSplitter) (text : list char)
  : result (list (list char)) :=
  offsets <- py_range 0 (Z.of_nat (List.length text))
                      (chunk_size self - chunk_overlap self) ;;
  for_each offsets
    (fun chunks i => Ok (chunks ++ [py_slice text i (i + chunk_size self)]))
    [].

Definition split_texts (self : CharacterTextSplitter)
  (texts : list (list char)) : result (list (list char)) :=
  for_each texts
    (fun chunks text => cs <- split self text ;; Ok (chunks ++ cs))
    [].
End Split.

End CharacterTextSplitter.

(** ** MultiSizeTextSplitter *)

Record MultiSizeTextSplitter : Type := mkMultiSizeTextSplitter {
  splitters : list CharacterTextSplitter
}.

Module MultiSizeTextSplitter.

Definition default_chunk_configs : list (Z * Z) := [(1000, 500); (500, 250)].

Definition init (chunk_configs : option (list (Z * Z)))
  : result MultiSizeTextSplitter :=
  let chunk_configs :=
    match chunk_configs with
    | None => default_chunk_configs
    | Some cfgs => cfgs
    end in
  ss <- for_each chunk_configs
          (fun ss cfg =>
             s <- CharacterTextSplitter.init (fst cfg) (snd cfg) ;;
             Ok (ss ++ [s]))
          [] ;;
  Ok (mkMultiSizeTextSplitter ss).

Definition size_key (splitter : CharacterTextSplitter) : string :=
  (str_of_int (chunk_size splitter) ++ "_"
     ++ str_of_int (chunk_overlap splitter))%string.

Section Split.
Context {char : Type}.

Definition split (self : MultiSizeTextSplitter) (text : list char)
  : result (list (list char)) :=
  for_each (splitters self)
    (fun all_chunks splitter =>
       cs <- CharacterTextSplitter.split splitter text ;;
       Ok (all_chunks ++ cs))
    [].

Definition split_texts (self : MultiSizeTextSplitter)
  (texts : list (list char)) : result (list (list char)) :=
  for_each texts
    (fun all_chunks text => cs <- split self text ;; Ok (all_chunks ++ cs))
    [].

Definition split_by_size (self : MultiSizeTextSplitter) (text : list char)
  : result (Dict.t (list (list char))) :=
  for_each (splitters self)
    (fun chunks_by_size splitter =>
       cs <- CharacterTextSplitter.split splitter text ;;
       Ok (Dict.setitem (size_key splitter) cs chunks_by_size))
    Dict.empty.
End Split.

End MultiSizeTextSplitter.

(** SmallCharacterTextSplitter: the preset [(500, 250)]. *)
Definition SmallCharacterTextSplitter_init : result CharacterTextSplitter :=
  CharacterTextSplitter.init 500 250.

Definition text_of (s : string) : list ascii := list_ascii_of_string s.

(** ** Vocabulary of the specification *)

(** SplitConfig of the data model: a positive window, a non-negative
    overlap, and a window strictly larger than the overlap. *)
Definition valid_config (window_size overlap_size : Z) : Prop :=
  0 < window_size /\ 0 <= overlap_size /\ overlap_size < window_size.

(** The substring of [d] that starts at [offset] and has at most
    [window_size] characters: it stops where [d] stops. *)
Definition window {A : Type} (d : list A) (offset window_size : nat) : list A :=
  firstn window_size (skipn offset d).

(** Chunks with the overlap taken off every chunk after the first. *)
Definition remove_overlaps {A : Type} (overlap_size : nat)
  (chunks : list (list A)) : list (list A) :=
  match chunks with
  | [] => []
  | c :: rest => c :: map (skipn overlap_size) rest
  end.

(** The first occurrence of every element, in order. *)
Fixpoint first_occurrences (l : list string) : list string :=
  match l with
  | [] => []
  | x :: l' => x :: filter (fun y => negb (String.eqb y x)) (first_occurrences l')
  end.

(** The configuration list a multi-configuration splitter is built from:
    the given one, or the default. *)
Definition configs_of (chunk_configs : option (list (Z * Z))) : list (Z * Z) :=
  match chunk_configs with
  | None => MultiSizeTextSplitter.default_chunk_configs
  | Some cfgs => cfgs
  end.

(** The single splitter of a configured pair. *)
Definition splitter_of (cfg : Z * Z) : CharacterTextSplitter :=
  mkCharacterTextSplitter (fst cfg) (snd cfg).

(** The identifier ["{window_size}_{overlap_size}"] of a configured pair. *)
Definition config_key (cfg : Z * Z) : string :=
  (str_of_int (fst cfg) ++ "_" ++ str_of_int (snd cfg))%string.

Definition mem (k : string) (l : list string) : bool := existsb (String.eqb k) l.

(** A run of [d[k] = v] statements. *)
Definition set_all {V : Type} (kvs : list (string * V)) (d : Dict.t V) : Dict.t V :=
  fold_left (fun m kv => Dict.setitem (fst kv) (snd kv) m) kvs d.

(** ** TextFileLoader *)

(** [s.endswith(suffix)] *)
Definition endswith (s suffix : string) : bool :=
  let n := String.length s in
  let m := String.length suffix in
  (m <=? n)%nat && String.eqb (substring (n - m) m s) suffix.

(** What ends a loader call early: an exception the module raises itself,
    or whatever [open] and [read] raised. *)
Inductive raised (E : Type) : Type :=
| PyExn (e : exn)
| IOExn (e : E).

Arguments PyExn {E} e.
Arguments IOExn {E} e.

(** [for x in xs: body] over an object that is mutated in place: what was
    done before an exception stays done. *)
Fixpoint for_state {A S E : Type} (xs : list A) (body : A -> S -> S * option E)
  (st : S) : S * option E :=
  match xs with
  | [] => (st, None)
  | x :: xs' =>
      match body x st with
      | (st', None) => for_state xs' body st'
      | (st', Some e) => (st', Some e)
      end
  end.

Record TextFileLoader (char : Type) : Type := mkTextFileLoader {
  documents : list (list char);
  path : string;
  encoding : string
}.

Arguments mkTextFileLoader {char} documents path encoding.
Arguments documents {char} t.
Arguments path {char} t.
Arguments encoding {char} t.

Module TextFileLoader.

Section OS.
Context {char io_error : Type}.

(** The file system as the loader reads it, unchanged while a call runs:
    [os.path.isdir], [os.path.isfile], the triples [(root, dirs, files)]
    that [os.walk] yields, [os.path.join], and
    [open(p, "r", encoding=e).read()]. *)
Variable isdir : string -> bool.
Variable isfile : string -> bool.
Variable walk : string -> list (string * list string * list string).
Variable join : string -> string -> string.
Variable read_text : string -> string -> io_error + list char.

Definition default_encoding : string := "utf-8".

Definition init (path encoding : string) : TextFileLoader char :=
  mkTextFileLoader [] path encoding.

(** [with open(p, "r", encoding=self.encoding) as f:
       self.documents.append(f.read())] *)
Definition read_into (p : string) (self : TextFileLoader char)
  : TextFileLoader char * option (raised io_error) :=
  match read_text p (encoding self) with
  | inl e => (self, Some (IOExn e))
  | inr text =>
      (mkTextFileLoader (documents self ++ [text]) (path self) (encoding self),
       None)
  end.

Definition load_file (self : TextFileLoader char)
  : TextFileLoader char * option (raised io_error) :=
  read_into (path self) self.

Definition load_directory (self : TextFileLoader char)
  : TextFileLoader char * option (raised io_error) :=
  for_state (walk (path self))
    (fun entry self =>
       let '(root, _, files) := entry in
       for_state files
         (fun file self =>
            if endswith file ".txt"
            then read_into (join root file) self
            else (self, None))
         self)
    self.

Definition load (self : TextFileLoader char)
  : TextFileLoader char * option (raised io_error) :=
  if isdir (path self) then load_directory self
  else if isfile (path self) && endswith (path self) ".txt" then load_file self
  else (self,
        Some (PyExn (ValueError
          "Provided path is neither a valid directory nor a .txt file."))).

Definition load_documents (self : TextFileLoader char)
  : TextFileLoader char * (raised io_error + list (list char)) :=
  let (self', r) := load self in
  (self', match r with
          | None => inr (documents self')
          | Some e => inl e
          end).

End OS.

End TextFileLoader.

(** The paths [load_directory] opens, in the order it opens them. *)
Definition txt_paths (join : string -> string -> string)
  (entries : list (string * list string * list string)) : list string :=
  flat_map
    (fun entry : string * list string * list string =>
       let '(root, _, files) := entry in
       map (join root) (filter (fun file => endswith file ".txt") files))
    entries.

(** The texts of [paths] up to the first one that cannot be read, and the
    exception of that one. *)
Fixpoint read_all {char io_error : Type}
  (read_text : string -> string -> io_error + list char)
  (encoding : string) (paths : list string)
  : list (list char) * option io_error :=
  match paths with
  | [] => ([], None)
  | p :: paths' =>
      match read_text p encoding with
      | inl e => ([], Some e)
      | inr text =>
          let (texts, r) := read_all read_text encoding paths' in
          (text :: texts, r)
      end
  end.

(** A small directory for examples: [d] holds [a.txt], [b.md] and
    [c.txt]; [c.txt] cannot be read when [c_readable] is [false]. *)
Definition demo_walk (top : string) : list (string * list string * list string) :=
  [(top, [], ["a.txt"; "b.md"; "c.txt"]%string)].

Definition demo_join (root file : string) : string :=
  (root ++ "/" ++ file)%string.

Definition demo_read (c_readable : bool) (p encoding : string)
  : unit + list ascii :=
  if String.eqb p "d/c.txt" && negb c_readable then inl tt else inr (text_of p).

(** * Properties *)

Example split_abcdef :
  CharacterTextSplitter.split (mkCharacterTextSplitter 4 2) (text_of "abcdef")
  = Ok [text_of "abcd"; text_of "cdef"; text_of "ef"].
Proof. reflexivity. Qed.

Example split_negative_window :
  CharacterTextSplitter.split (mkCharacterTextSplitter (-1) (-2)) (text_of "ab")
  = Ok [text_of "a"; text_of ""].
Proof. reflexivity. Qed.

(** A negative overlap makes the stride exceed the window: ['b'] is in no
    chunk. *)
Example split_negative_overlap :
  CharacterTextSplitter.split (mkCharacterTextSplitter 1 (-1)) (text_of "ab")
  = Ok [text_of "a"].
Proof. reflexivity. Qed.

Example split_zero_stride :
  CharacterTextSplitter.split (mkCharacterTextSplitter 5 5) (text_of "ab")
  = Raise (ValueError "range() arg 3 must not be zero").
Proof. reflexivity. Qed.

Example size_key_default :
  MultiSizeTextSplitter.size_key (mkCharacterTextSplitter 1000 500) = "1000_500"%string.
Proof. reflexivity. Qed.

Example size_key_negative :
  MultiSizeTextSplitter.size_key (mkCharacterTextSplitter 0 (-1)) = "0_-1"%string.
Proof. reflexivity. Qed.

Example default_split_by_size_keys :
  match MultiSizeTextSplitter.init None with
  | Ok ms =>
      match MultiSizeTextSplitter.split_by_size ms (repeat "x"%char 1200) with
      | Ok m => map (fun kv => (fst kv, List.length (snd kv))) m
      | Raise _ => []
      end
  | Raise _ => []
  end = [("1000_500"%string, 3%nat); ("500_250"%string, 5%nat)].
Proof. vm_compute. reflexivity. Qed.

(** ** The loops *)

Lemma for_each_append_one {A B : Type} (f : A -> B) (xs : list A) (acc : list B) :
  for_each xs (fun chunks x => Ok (chunks ++ [f x])) acc = Ok (acc ++ map f xs).
Proof.
  revert acc; induction xs as [|x xs IH]; intros acc; simpl.
  - now rewrite app_nil_r.
  - rewrite IH, <- app_assoc. reflexivity.
Qed.

Lemma for_each_extend {A B : Type} (g : A -> result (list B)) (xs : list A)
  (css : list (list B)) (acc : list B) :
  Forall2 (fun x cs => g x = Ok cs) xs css ->
  for_each xs (fun chunks x => cs <- g x ;; Ok (chunks ++ cs)) acc
  = Ok (acc ++ List.concat css).
Proof.
  intros H; revert acc; induction H as [|x cs xs css Hx _ IH]; intros acc; simpl.
  - now rewrite app_nil_r.
  - rewrite Hx; simpl. rewrite IH, <- app_assoc. reflexivity.
Qed.

Lemma for_each_extend_raise {A B : Type} (g : A -> result (list B))
  (xs : list A) (acc : list B) :
  (exists x e, In x xs /\ g x = Raise e) ->
  exists e, for_each xs (fun chunks x => cs <- g x ;; Ok (chunks ++ cs)) acc
            = Raise e.
Proof.
  revert acc; induction xs as [|x xs IH]; intros acc (y & e & Hin & Hy).
  - destruct Hin.
  - simpl. destruct (g x) as [cs|e'] eqn:Hx; simpl.
    + destruct Hin as [->|Hin]; [congruence|].
      apply IH. now exists y, e.
    + now exists e'.
Qed.

(** ** [range] and slices *)

Lemma range_length_spec (stop step : Z) (k : nat) :
  0 < step ->
  (k < Z.to_nat (range_length 0 stop step))%nat <-> Z.of_nat k * step < stop.
Proof.
  intros Hstep. unfold range_length.
  destruct (Z.ltb_spec 0 step) as [_|]; [|lia].
  destruct (Z.ltb_spec 0 stop) as [Hpos|Hneg].
  - rewrite Z.sub_0_r.
    assert (Hq : 0 <= (stop - 1) / step) by (apply Z.div_pos; lia).
    split; intros H.
    + assert (Z.of_nat k <= (stop - 1) / step) by lia.
      assert (step * ((stop - 1) / step) <= stop - 1)
        by (apply Z.mul_div_le; lia).
      nia.
    + assert (Z.of_nat k <= (stop - 1) / step)
        by (apply Z.div_le_lower_bound; lia).
      lia.
  - simpl. split; [lia|]. intros H. nia.
Qed.

Lemma firstn_min {A : Type} (n : nat) (l : list A) :
  firstn (Nat.min n (List.length l)) l = firstn n l.
Proof.
  destruct (Nat.le_ge_cases n (List.length l)) as [H|H].
  - now rewrite Nat.min_l.
  - rewrite Nat.min_r by exact H. now rewrite !firstn_all2.
Qed.

Lemma py_slice_window {A : Type} (s : list A) (lo w : Z) :
  0 <= lo -> 0 <= w ->
  py_slice s lo (lo + w) = window s (Z.to_nat lo) (Z.to_nat w).
Proof.
  intros Hlo Hw. unfold py_slice, window, adjust_index.
  destruct (Z.ltb_spec lo 0) as [|_]; [lia|].
  destruct (Z.ltb_spec (lo + w) 0) as [|_]; [lia|].
  destruct (Z_lt_le_dec lo (Z.of_nat (List.length s))) as [Hin|Hout].
  - rewrite (Z.min_l lo) by lia.
    rewrite <- (firstn_min (Z.to_nat w)).
    f_equal. rewrite length_skipn. lia.
  - rewrite (Z.min_r lo) by lia.
    rewrite !(skipn_all2 s) by lia. now rewrite !firstn_nil.
Qed.

Lemma firstn_add {A : Type} (a b : nat) (l : list A) :
  firstn (a + b) l = firstn a l ++ firstn b (skipn a l).
Proof.
  revert l; induction a as [|a IH]; intros l; [reflexivity|].
  destruct l as [|x l]; simpl.
  - now rewrite firstn_nil.
  - now rewrite IH.
Qed.

Lemma window_length {A : Type} (d : list A) (off w : nat) :
  List.length (window d off w) = Nat.min w (List.length d - off).
Proof. unfold window. now rewrite length_firstn, length_skipn. Qed.

Lemma skipn_window {A : Type} (d : list A) (off w o : nat) :
  skipn o (window d off w) = window d (off + o) (w - o).
Proof.
  unfold window.
  rewrite skipn_firstn_comm, skipn_skipn. do 2 f_equal. lia.
Qed.

(** Consecutive windows of width [s] laid end to end form one window. *)
Lemma concat_windows {A : Type} (d : list A) (a s m : nat) :
  List.concat (map (fun j => window d (a + j * s) s) (seq 0 m))
  = window d a (m * s).
Proof.
  induction m as [|m IH]; [reflexivity|].
  rewrite seq_S, map_app, concat_app, IH. simpl.
  rewrite app_nil_r. unfold window.
  replace (s + m * s)%nat with (m * s + s)%nat by lia.
  rewrite firstn_add, skipn_skipn. do 3 f_equal. lia.
Qed.

(** ** CharacterTextSplitter *)

Lemma init_ok (cs co : Z) :
  co < cs -> CharacterTextSplitter.init cs co = Ok (mkCharacterTextSplitter cs co).
Proof.
  intros H. unfold CharacterTextSplitter.init.
  destruct (Z.gtb_spec cs co); [reflexivity|lia].
Qed.

Lemma init_raise (cs co : Z) :
  cs <= co ->
  CharacterTextSplitter.init cs co
  = Raise (AssertionError "Chunk size must be greater than chunk overlap").
Proof.
  intros H. unfold CharacterTextSplitter.init.
  destruct (Z.gtb_spec cs co); [lia|reflexivity].
Qed.

Lemma init_inv (cs co : Z) (self : CharacterTextSplitter) :
  CharacterTextSplitter.init cs co = Ok self ->
  self = mkCharacterTextSplitter cs co /\ co < cs.
Proof.
  unfold CharacterTextSplitter.init.
  destruct (Z.gtb_spec cs co); [|discriminate].
  intros [= <-]. now split.
Qed.

Section SplitFacts.
Context {char : Type}.
Implicit Types (d text : list char) (self : CharacterTextSplitter).

(** One slice per element of the range, in order. *)
Lemma split_slices self text :
  chunk_overlap self < chunk_size self ->
  CharacterTextSplitter.split self text
  = Ok (map (fun k : nat =>
               let i := Z.of_nat k * (chunk_size self - chunk_overlap self) in
               py_slice text i (i + chunk_size self))
            (seq 0 (Z.to_nat (range_length 0 (Z.of_nat (List.length text))
                                (chunk_size self - chunk_overlap self))))).
Proof.
  intros H. unfold CharacterTextSplitter.split, py_range.
  destruct (Z.eqb_spec (chunk_size self - chunk_overlap self) 0); [lia|].
  simpl. rewrite for_each_append_one. simpl. now rewrite map_map.
Qed.

Lemma split_windows self text :
  0 <= chunk_size self -> chunk_overlap self < chunk_size self ->
  CharacterTextSplitter.split self text
  = Ok (map (fun k : nat =>
               window text (k * Z.to_nat (chunk_size self - chunk_overlap self))
                      (Z.to_nat (chunk_size self)))
            (seq 0 (Z.to_nat (range_length 0 (Z.of_nat (List.length text))
                                (chunk_size self - chunk_overlap self))))).
Proof.
  intros Hcs H. rewrite split_slices by exact H. f_equal.
  apply map_ext. intros k. cbv zeta.
  rewrite py_slice_window by nia. f_equal. nia.
Qed.

Lemma chunk_count_spec (cs co : Z) d (k : nat) :
  co < cs ->
  (k < Z.to_nat (range_length 0 (Z.of_nat (List.length d)) (cs - co)))%nat
  <-> (k * Z.to_nat (cs - co) < List.length d)%nat.
Proof.
  intros H. rewrite range_length_spec by lia. nia.
Qed.

(** C1. For a configuration with a positive window larger than the
    overlap, construction succeeds and [split d] is the list of windows
    [d[i : i + window_size]] (cut short where [d] ends) at the offsets
    [i = k * stride], [stride = window_size - overlap_size], for exactly
    those [k = 0, 1, 2, ...] with [k * stride < length d]. *)
Theorem split_chunks_at_stride_offsets (cs co : Z) d :
  0 < cs -> co < cs ->
  exists self n,
    CharacterTextSplitter.init cs co = Ok self /\
    CharacterTextSplitter.split self d
    = Ok (map (fun k => window d (k * Z.to_nat (cs - co)) (Z.to_nat cs))
              (seq 0 n)) /\
    forall k : nat,
      (k < n)%nat <-> (k * Z.to_nat (cs - co) < List.length d)%nat.
Proof.
  intros Hcs Hco.
  exists (mkCharacterTextSplitter cs co),
    (Z.to_nat (range_length 0 (Z.of_nat (List.length d)) (cs - co))).
  split; [now apply init_ok|]. split.
  - apply (split_windows (mkCharacterTextSplitter cs co)); simpl; lia.
  - intros k. now apply chunk_count_spec.
Qed.

(** C2. For a valid configuration, the chunks of [split d], with the
    first [overlap_size] characters taken off every chunk after the
    first, concatenate to [d]: nothing is lost and nothing is repeated. *)
Theorem split_reconstructs_document (cs co : Z) d :
  valid_config cs co ->
  exists self chunks,
    CharacterTextSplitter.init cs co = Ok self /\
    CharacterTextSplitter.split self d = Ok chunks /\
    List.concat (remove_overlaps (Z.to_nat co) chunks) = d.
Proof.
  intros (Hcs & Hco & Hlt).
  exists (mkCharacterTextSplitter cs co). eexists.
  split; [now apply init_ok|]. split.
  - apply (split_windows (mkCharacterTextSplitter cs co)); simpl; lia.
  - simpl.
    pose proof (fun k => chunk_count_spec cs co d k Hlt) as Hn.
    set (n := Z.to_nat (range_length 0 (Z.of_nat (List.length d)) (cs - co))) in *.
    set (s := Z.to_nat (cs - co)) in *.
    assert (Hs : (Z.to_nat cs = Z.to_nat co + s)%nat) by (subst s; lia).
    destruct n as [|m].
    + pose proof (proj2 (Hn 0%nat)) as H0.
      destruct d; [reflexivity|]. simpl in H0. lia.
    + simpl. rewrite <- seq_shift, !map_map.
      rewrite (map_ext _ (fun j => window d (Z.to_nat cs + j * s) s)).
      * rewrite concat_windows. unfold window. simpl.
        rewrite <- firstn_add. apply firstn_all2.
        assert (~ (S m * s < List.length d)%nat) as Hend
          by (intros X; apply Hn in X; lia).
        nia.
      * intros j. rewrite skipn_window. f_equal; simpl; lia.
Qed.

(** C3, amended. For a valid configuration, the chunk of [split d] at
    offset [i] has length [min window_size (length d - i)]: exactly
    [window_size] when [i + window_size <= length d], and for the last
    chunk [length d - i], which is at most [window_size]. *)
Theorem split_chunk_lengths (cs co : Z) d :
  valid_config cs co ->
  exists self chunks,
    CharacterTextSplitter.init cs co = Ok self /\
    CharacterTextSplitter.split self d = Ok chunks /\
    forall (k : nat) (c : list char),
      nth_error chunks k = Some c ->
      let i := (k * Z.to_nat (cs - co))%nat in
      (i < List.length d)%nat /\
      List.length c = Nat.min (Z.to_nat cs) (List.length d - i) /\
      ((i + Z.to_nat cs <= List.length d)%nat ->
       List.length c = Z.to_nat cs) /\
      (S k = List.length chunks ->
       List.length c = (List.length d - i)%nat /\
       (List.length c <= Z.to_nat cs)%nat).
Proof.
  intros (Hcs & Hco & Hlt).
  exists (mkCharacterTextSplitter cs co). eexists.
  split; [now apply init_ok|]. split.
  - apply (split_windows (mkCharacterTextSplitter cs co)); simpl; lia.
  - simpl. intros k c Hk.
    pose proof (fun k => chunk_count_spec cs co d k Hlt) as Hn.
    set (n := Z.to_nat (range_length 0 (Z.of_nat (List.length d)) (cs - co))) in *.
    set (s := Z.to_nat (cs - co)) in *.
    assert (Hs : (Z.to_nat cs = Z.to_nat co + s)%nat) by (subst s; lia).
    assert (Hkn : (k < n)%nat).
    { assert (nth_error
                (map (fun k => window d (k * s) (Z.to_nat cs)) (seq 0 n)) k
              <> None) as Hlen by congruence.
      apply nth_error_Some in Hlen.
      now rewrite length_map, length_seq in Hlen. }
    rewrite nth_error_map, nth_error_seq in Hk.
    destruct (Nat.ltb_spec k n) as [_|]; [|lia].
    simpl in Hk. injection Hk as <-.
    rewrite window_length, length_map, length_seq.
    pose proof (proj1 (Hn k) Hkn) as Hoff.
    split; [exact Hoff|]. split; [reflexivity|]. split; [lia|].
    intros Hlast.
    assert (~ (S k * s < List.length d)%nat) as Hend
      by (intros X; apply Hn in X; lia).
    split; nia.
Qed.

Lemma split_total self text :
  chunk_overlap self < chunk_size self ->
  exists chunks, CharacterTextSplitter.split self text = Ok chunks.
Proof. intros H. eexists. now apply split_slices. Qed.

(** C5, amended. For every configuration that construction accepts,
    [split] of the empty document is the empty ChunkSet: [range(0, 0,
    stride)] has no element, so no chunk is produced. *)
Theorem split_empty_document (cs co : Z) :
  co < cs ->
  exists self,
    CharacterTextSplitter.init cs co = Ok self /\
    CharacterTextSplitter.split self (@nil char) = Ok [].
Proof.
  intros H. exists (mkCharacterTextSplitter cs co).
  split; [now apply init_ok|].
  rewrite split_slices by (simpl; lia). simpl.
  unfold range_length. destruct (0 <? cs - co); reflexivity.
Qed.

Lemma split_texts_concat self (docs : list (list char)) :
  chunk_overlap self < chunk_size self ->
  exists css,
    Forall2 (fun d cs => CharacterTextSplitter.split self d = Ok cs) docs css /\
    CharacterTextSplitter.split_texts self docs = Ok (List.concat css).
Proof.
  intros H.
  assert (exists css,
    Forall2 (fun d cs => CharacterTextSplitter.split self d = Ok cs) docs css)
    as [css Hcss].
  { induction docs as [|d docs [css IH]].
    - exists []. constructor.
    - destruct (split_total self d H) as [cs Hcs].
      exists (cs :: css). now constructor. }
  exists css. split; [exact Hcss|].
  unfold CharacterTextSplitter.split_texts.
  now rewrite (for_each_extend _ _ css).
Qed.

(** C7. For every constructed splitter, [split_texts [d1; d2]] is
    [split d1] followed by [split d2], and [split_texts] of any list of
    documents is the concatenation, in document order, of [split] of
    each document. *)
Theorem split_texts_is_concatenation (cs co : Z) self :
  CharacterTextSplitter.init cs co = Ok self ->
  (forall d1 d2, exists c1 c2,
      CharacterTextSplitter.split self d1 = Ok c1 /\
      CharacterTextSplitter.split self d2 = Ok c2 /\
      CharacterTextSplitter.split_texts self [d1; d2] = Ok (c1 ++ c2)) /\
  (forall docs, exists css,
      Forall2 (fun d c => CharacterTextSplitter.split self d = Ok c) docs css /\
      CharacterTextSplitter.split_texts self docs = Ok (List.concat css)).
Proof.
  intros Hinit. apply init_inv in Hinit as [-> Hlt].
  split.
  - intros d1 d2.
    destruct (split_texts_concat (mkCharacterTextSplitter cs co) [d1; d2] Hlt)
      as (css & Hcss & Heq).
    inversion Hcss as [|? c1 ? css1 H1 Hcss1]; subst.
    inversion Hcss1 as [|? c2 ? css2 H2 Hcss2]; subst.
    inversion Hcss2; subst.
    exists c1, c2. simpl in Heq. rewrite app_nil_r in Heq. auto.
  - intros docs. now apply split_texts_concat.
Qed.

(** C9. Construction compares the two numbers and nothing else:
    every window size, positive or not, is accepted with the overlap
    one below it; [(chunk_size = 0, chunk_overlap = -1)] is accepted, and
    the splitter built from it returns one empty chunk per offset
    [0, 1, ..., length d - 1]. *)
Theorem nonpositive_window_is_accepted :
  (forall cs, CharacterTextSplitter.init cs (cs - 1)
              = Ok (mkCharacterTextSplitter cs (cs - 1))) /\
  exists self,
    CharacterTextSplitter.init 0 (-1) = Ok self /\
    forall d, CharacterTextSplitter.split self d
              = Ok (repeat [] (List.length d)).
Proof.
  split; [intros cs; apply init_ok; lia|].
  exists (mkCharacterTextSplitter 0 (-1)). split; [reflexivity|].
  intros d. rewrite split_windows by (simpl; lia). simpl. f_equal.
  rewrite (map_ext _ (fun _ => @nil char)) by reflexivity.
  rewrite map_const, length_seq. f_equal.
  unfold range_length. simpl.
  destruct (Z.ltb_spec 0 (Z.of_nat (List.length d))) as [Hpos|Hz].
  - rewrite Z.sub_0_r, Z.div_1_r. lia.
  - lia.
Qed.

End SplitFacts.

(** ** MultiSizeTextSplitter: construction *)

Lemma multi_init_loop_ok (cfgs : list (Z * Z)) (acc : list CharacterTextSplitter) :
  Forall (fun cfg => snd cfg < fst cfg) cfgs ->
  for_each cfgs
    (fun ss cfg =>
       s <- CharacterTextSplitter.init (fst cfg) (snd cfg) ;; Ok (ss ++ [s]))
    acc
  = Ok (acc ++ map splitter_of cfgs).
Proof.
  intros H; revert acc; induction H as [|cfg cfgs Hc _ IH]; intros acc; simpl.
  - now rewrite app_nil_r.
  - rewrite init_ok by exact Hc. simpl. rewrite IH, <- app_assoc. reflexivity.
Qed.

Lemma multi_init_loop_raise (cfgs : list (Z * Z)) (acc : list CharacterTextSplitter) :
  Exists (fun cfg => fst cfg <= snd cfg) cfgs ->
  for_each cfgs
    (fun ss cfg =>
       s <- CharacterTextSplitter.init (fst cfg) (snd cfg) ;; Ok (ss ++ [s]))
    acc
  = Raise (AssertionError "Chunk size must be greater than chunk overlap").
Proof.
  revert acc; induction cfgs as [|cfg cfgs IH]; intros acc H.
  - inversion H.
  - simpl. destruct (Z_lt_le_dec (snd cfg) (fst cfg)) as [Hok|Hbad].
    + rewrite init_ok by exact Hok. simpl. apply IH.
      inversion H; subst; [lia|assumption].
    + now rewrite init_raise by exact Hbad.
Qed.

Lemma multi_init_ok (chunk_configs : option (list (Z * Z))) :
  Forall (fun cfg => snd cfg < fst cfg) (configs_of chunk_configs) ->
  MultiSizeTextSplitter.init chunk_configs
  = Ok (mkMultiSizeTextSplitter (map splitter_of (configs_of chunk_configs))).
Proof.
  intros H. unfold MultiSizeTextSplitter.init.
  fold (configs_of chunk_configs).
  now rewrite multi_init_loop_ok.
Qed.

Lemma multi_init_raise (chunk_configs : option (list (Z * Z))) :
  Exists (fun cfg => fst cfg <= snd cfg) (configs_of chunk_configs) ->
  MultiSizeTextSplitter.init chunk_configs
  = Raise (AssertionError "Chunk size must be greater than chunk overlap").
Proof.
  intros H. unfold MultiSizeTextSplitter.init.
  fold (configs_of chunk_configs).
  now rewrite multi_init_loop_raise.
Qed.

Lemma multi_init_inv (chunk_configs : option (list (Z * Z)))
  (ms : MultiSizeTextSplitter) :
  MultiSizeTextSplitter.init chunk_configs = Ok ms ->
  Forall (fun cfg => snd cfg < fst cfg) (configs_of chunk_configs) /\
  splitters ms = map splitter_of (configs_of chunk_configs).
Proof.
  intros H.
  destruct (Forall_Exists_dec (fun cfg : Z * Z => snd cfg < fst cfg)
              (fun cfg => Z_lt_dec (snd cfg) (fst cfg))
              (configs_of chunk_configs)) as [Hall|Hex].
  - rewrite multi_init_ok in H by exact Hall. injection H as <-. now split.
  - rewrite multi_init_raise in H; [discriminate|].
    eapply Exists_impl; [|exact Hex]. simpl. intros cfg. lia.
Qed.

(** C4. Construction of a splitter raises exactly when
    [window_size <= overlap_size]: it raises for [(500, 500)] and
    [(100, 200)] and succeeds for [(1000, 500)].  Construction of a
    multi-configuration splitter raises, returning no splitter at all, as
    soon as one pair of its list has [window_size <= overlap_size]. *)
Theorem construction_fails_iff_window_le_overlap :
  (forall cs co,
      (exists e, CharacterTextSplitter.init cs co = Raise e) <-> cs <= co) /\
  (exists e, CharacterTextSplitter.init 500 500 = Raise e) /\
  (exists e, CharacterTextSplitter.init 100 200 = Raise e) /\
  (exists self, CharacterTextSplitter.init 1000 500 = Ok self) /\
  (forall cfgs,
      (exists e, MultiSizeTextSplitter.init (Some cfgs) = Raise e)
      <-> exists cfg, In cfg cfgs /\ fst cfg <= snd cfg).
Proof.
  split; [|split; [|split; [|split]]].
  - intros cs co. split.
    + intros [e He]. destruct (Z_lt_le_dec co cs) as [Hlt|Hle]; [|exact Hle].
      rewrite init_ok in He by exact Hlt. discriminate.
    + intros H. eexists. now apply init_raise.
  - eexists. reflexivity.
  - eexists. reflexivity.
  - eexists. reflexivity.
  - intros cfgs. split.
    + intros [e He].
      destruct (Forall_Exists_dec (fun cfg : Z * Z => snd cfg < fst cfg)
                  (fun cfg => Z_lt_dec (snd cfg) (fst cfg)) cfgs) as [Hall|Hex].
      * rewrite (multi_init_ok (Some cfgs)) in He by exact Hall. discriminate.
      * apply Exists_exists in Hex as (cfg & Hin & Hbad).
        exists cfg. split; [exact Hin|lia].
    + intros (cfg & Hin & Hbad). eexists.
      apply (multi_init_raise (Some cfgs)).
      apply Exists_exists. now exists cfg.
Qed.

(** ** Keys: [str(int)] and the f-string *)

Lemma to_int_printable (n : Z) :
  Z.to_int n <> Pos Nil /\ Z.to_int n <> Neg Nil.
Proof.
  destruct n as [|p|p]; simpl; split; try discriminate;
    intros [= H]; now apply Unsigned.to_uint_nonnil in H.
Qed.

Lemma str_of_int_inj (a b : Z) : str_of_int a = str_of_int b -> a = b.
Proof.
  unfold str_of_int. intros H.
  apply (f_equal NilZero.int_of_string) in H.
  destruct (to_int_printable a) as [Ha1 Ha2].
  destruct (to_int_printable b) as [Hb1 Hb2].
  rewrite !NilZero.isi in H by assumption.
  injection H as H. apply (f_equal Z.of_int) in H.
  now rewrite !DecimalZ.of_to in H.
Qed.

Lemma digits_no_underscore (d : uint) :
  ~ In "_"%char (list_ascii_of_string (NilEmpty.string_of_uint d)).
Proof.
  induction d; simpl; [tauto|..]; intros [H|H]; try discriminate; auto.
Qed.

Lemma str_of_int_no_underscore (n : Z) :
  ~ In "_"%char (list_ascii_of_string (str_of_int n)).
Proof.
  unfold str_of_int.
  assert (forall d, ~ In "_"%char (list_ascii_of_string (NilZero.string_of_uint d)))
    as Hu.
  { intros d. destruct d; try apply (digits_no_underscore (_ d)).
    simpl. intros [H|[]]. discriminate. }
  destruct (Z.to_int n) as [d|d]; simpl.
  - apply Hu.
  - intros [H|H]; [discriminate|]. now apply Hu in H.
Qed.

Lemma append_sep_inj (s1 s2 t1 t2 : string) :
  ~ In "_"%char (list_ascii_of_string s1) ->
  ~ In "_"%char (list_ascii_of_string s2) ->
  (s1 ++ "_" ++ t1 = s2 ++ "_" ++ t2)%string ->
  s1 = s2 /\ t1 = t2.
Proof.
  revert s2; induction s1 as [|c s1 IH]; intros [|c' s2] H1 H2 Heq;
    simpl in *.
  - injection Heq as <-. now split.
  - injection Heq as <- _. exfalso. apply H2. now left.
  - injection Heq as -> _. exfalso. apply H1. now left.
  - injection Heq as -> Heq.
    destruct (IH s2) as [-> ->]; auto.
Qed.

Lemma size_key_inj (s s' : CharacterTextSplitter) :
  MultiSizeTextSplitter.size_key s = MultiSizeTextSplitter.size_key s' -> s = s'.
Proof.
  unfold MultiSizeTextSplitter.size_key. intros H.
  apply append_sep_inj in H; try apply str_of_int_no_underscore.
  destruct H as [H1 H2].
  apply str_of_int_inj in H1, H2.
  destruct s, s'; simpl in *. congruence.
Qed.

Lemma config_key_inj (a b : Z * Z) : config_key a = config_key b -> a = b.
Proof.
  intros H. apply (size_key_inj (splitter_of a) (splitter_of b)) in H.
  destruct a, b. now injection H as -> ->.
Qed.

Lemma NoDup_config_keys (cfgs : list (Z * Z)) :
  NoDup cfgs -> NoDup (map config_key cfgs).
Proof.
  induction 1 as [|cfg cfgs Hnotin _ IH]; simpl; constructor; [|exact IH].
  intros Hin. apply in_map_iff in Hin as (cfg' & Hkey & Hin').
  apply config_key_inj in Hkey. now subst cfg'.
Qed.

(** ** The dictionary *)

Section DictFacts.
Context {V : Type}.
Implicit Types (d : Dict.t V) (k : string) (v : V).

Lemma get_setitem_same k v d : Dict.get k (Dict.setitem k v d) = Some v.
Proof.
  induction d as [|[k' v'] d IH]; simpl.
  - now rewrite String.eqb_refl.
  - destruct (String.eqb k k') eqn:E; simpl; rewrite E; auto.
Qed.

Lemma get_setitem_other k k' v d :
  k' <> k -> Dict.get k' (Dict.setitem k v d) = Dict.get k' d.
Proof.
  intros Hne. induction d as [|[k0 v0] d IH]; simpl.
  - destruct (String.eqb_spec k' k); [contradiction|reflexivity].
  - destruct (String.eqb_spec k k0) as [->|Hk]; simpl.
    + destruct (String.eqb_spec k' k0); [contradiction|reflexivity].
    + now rewrite IH.
Qed.

Lemma keys_setitem k v d :
  Dict.keys (Dict.setitem k v d)
  = if mem k (Dict.keys d) then Dict.keys d else Dict.keys d ++ [k].
Proof.
  unfold Dict.keys, mem. induction d as [|[k' v'] d IH]; simpl; [reflexivity|].
  destruct (String.eqb k k'); simpl; [reflexivity|].
  rewrite IH. now destruct (existsb (String.eqb k) (map fst d)).
Qed.

Lemma filter_filter_andb {A : Type} (f g : A -> bool) (l : list A) :
  filter f (filter g l) = filter (fun x => g x && f x) l.
Proof.
  induction l as [|x l IH]; simpl; [reflexivity|].
  destruct (g x); simpl; [destruct (f x)|]; now rewrite IH.
Qed.

Lemma keys_set_all (kvs : list (string * V)) d :
  Dict.keys (set_all kvs d)
  = Dict.keys d
    ++ filter (fun y => negb (mem y (Dict.keys d)))
         (first_occurrences (map fst kvs)).
Proof.
  revert d; induction kvs as [|[k v] kvs IH]; intros d; simpl.
  - now rewrite app_nil_r.
  - rewrite IH, keys_setitem. destruct (mem k (Dict.keys d)) eqn:Hk; simpl.
    + f_equal. rewrite filter_filter_andb. apply filter_ext. intros y.
      destruct (String.eqb_spec y k) as [->|]; simpl; [now rewrite Hk|reflexivity].
    + rewrite <- app_assoc. simpl. do 2 f_equal.
      rewrite filter_filter_andb. apply filter_ext. intros y.
      unfold mem. rewrite existsb_app. simpl. rewrite orb_false_r.
      rewrite negb_orb. apply andb_comm.
Qed.

Lemma get_set_all_other (kvs : list (string * V)) d k :
  ~ In k (map fst kvs) -> Dict.get k (set_all kvs d) = Dict.get k d.
Proof.
  revert d; induction kvs as [|[k' v'] kvs IH]; intros d Hk; simpl in *.
  - reflexivity.
  - rewrite IH by tauto. apply get_setitem_other. intros ->. tauto.
Qed.

(** When equal keys carry equal values, every pair that was stored is
    found again. *)
Lemma get_set_all (kvs : list (string * V)) d k v :
  (forall k0 v1 v2, In (k0, v1) kvs -> In (k0, v2) kvs -> v1 = v2) ->
  In (k, v) kvs -> Dict.get k (set_all kvs d) = Some v.
Proof.
  revert d; induction kvs as [|[k' v'] kvs IH]; intros d Hfun Hin; simpl.
  - destruct Hin.
  - destruct (in_dec string_dec k (map fst kvs)) as [Hlater|Hlast].
    + apply in_map_iff in Hlater as ([k0 v0] & Hk0 & Hin0). simpl in Hk0. subst k0.
      assert (v0 = v) as -> by (apply (Hfun k); simpl; auto).
      apply IH; [|exact Hin0].
      intros k0 v1 v2 H1 H2. apply (Hfun k0); simpl; auto.
    + rewrite get_set_all_other by exact Hlast.
      destruct Hin as [[= -> ->]|Hin].
      * apply get_setitem_same.
      * exfalso. apply Hlast. apply in_map_iff. now exists (k, v).
Qed.

End DictFacts.

Lemma fst_combine {A B : Type} (l : list A) (l' : list B) :
  List.length l = List.length l' -> map fst (combine l l') = l.
Proof.
  revert l'; induction l as [|x l IH]; intros [|y l'] H; simpl in *;
    try discriminate; [reflexivity|].
  f_equal. apply IH. lia.
Qed.

Lemma first_occurrences_In (l : list string) (x : string) :
  In x (first_occurrences l) <-> In x l.
Proof.
  induction l as [|y l IH]; simpl; [tauto|].
  rewrite filter_In, IH.
  destruct (String.eqb_spec x y) as [->|Hne]; simpl; intuition congruence.
Qed.

Lemma first_occurrences_NoDup (l : list string) : NoDup (first_occurrences l).
Proof.
  induction l as [|y l IH]; simpl; constructor.
  - rewrite filter_In, String.eqb_refl. simpl. intros [_ H]. discriminate.
  - now apply NoDup_filter.
Qed.

Lemma first_occurrences_id (l : list string) :
  NoDup l -> first_occurrences l = l.
Proof.
  induction 1 as [|y l Hy _ IH]; simpl; [reflexivity|].
  rewrite IH. f_equal. apply forallb_filter_id, forallb_forall.
  intros x Hx. destruct (String.eqb_spec x y) as [->|]; [contradiction|reflexivity].
Qed.

Lemma first_occurrences_length (l : list string) :
  (List.length (first_occurrences l) <= List.length l)%nat.
Proof.
  induction l as [|y l IH]; simpl; [lia|].
  pose proof (filter_length_le (fun x => negb (String.eqb x y))
                (first_occurrences l)). lia.
Qed.

(** ** MultiSizeTextSplitter: the flat and the grouped view *)

Section MultiFacts.
Context {char : Type}.
Implicit Types (d : list char) (ms : MultiSizeTextSplitter).

Lemma splits_total (ss : list CharacterTextSplitter) d :
  Forall (fun s => chunk_overlap s < chunk_size s) ss ->
  exists css,
    Forall2 (fun s cs => CharacterTextSplitter.split s d = Ok cs) ss css.
Proof.
  induction 1 as [|s ss Hs _ [css IH]].
  - exists []. constructor.
  - destruct (split_total s d Hs) as [cs Hcs].
    exists (cs :: css). now constructor.
Qed.

Lemma split_by_size_loop (ss : list CharacterTextSplitter) d
  (css : list (list (list char))) (m : Dict.t (list (list char))) :
  Forall2 (fun s cs => CharacterTextSplitter.split s d = Ok cs) ss css ->
  for_each ss
    (fun chunks_by_size splitter =>
       cs <- CharacterTextSplitter.split splitter d ;;
       Ok (Dict.setitem (MultiSizeTextSplitter.size_key splitter) cs
             chunks_by_size))
    m
  = Ok (set_all (combine (map MultiSizeTextSplitter.size_key ss) css) m).
Proof.
  intros H; revert m; induction H as [|s cs ss css Hs _ IH]; intros m; simpl.
  - reflexivity.
  - rewrite Hs. simpl. apply IH.
Qed.

Lemma in_keyed_chunks (ss : list CharacterTextSplitter) d
  (css : list (list (list char))) (k : string) (cs : list (list char)) :
  Forall2 (fun s cs => CharacterTextSplitter.split s d = Ok cs) ss css ->
  In (k, cs) (combine (map MultiSizeTextSplitter.size_key ss) css) ->
  exists s, In s ss /\ MultiSizeTextSplitter.size_key s = k /\
            CharacterTextSplitter.split s d = Ok cs.
Proof.
  induction 1 as [|s cs0 ss css Hs _ IH]; simpl; [tauto|].
  intros [[= <- <-]|Hin].
  - exists s. auto.
  - destruct (IH Hin) as (s' & ? & ? & ?). exists s'. auto.
Qed.

Lemma keyed_chunks_functional (ss : list CharacterTextSplitter) d
  (css : list (list (list char))) :
  Forall2 (fun s cs => CharacterTextSplitter.split s d = Ok cs) ss css ->
  forall k c1 c2,
    In (k, c1) (combine (map MultiSizeTextSplitter.size_key ss) css) ->
    In (k, c2) (combine (map MultiSizeTextSplitter.size_key ss) css) ->
    c1 = c2.
Proof.
  intros H k c1 c2 H1 H2.
  destruct (in_keyed_chunks _ _ _ _ _ H H1) as (s1 & _ & K1 & S1).
  destruct (in_keyed_chunks _ _ _ _ _ H H2) as (s2 & _ & K2 & S2).
  assert (s1 = s2) as -> by (apply size_key_inj; congruence).
  congruence.
Qed.

(** C8. For a constructed multi-configuration splitter, [split_by_size d]
    is a mapping whose keys are the strings
    ["{window_size}_{overlap_size}"] of the configured pairs in the order
    in which the configuration list first names them, the value at the
    key of each pair is the ChunkSet that the single splitter of that
    pair produces for [d], and the flat [split d] is the concatenation of
    those ChunkSets in configuration-list order. *)
Theorem split_by_size_groups_by_configuration
  (chunk_configs : option (list (Z * Z))) ms d :
  MultiSizeTextSplitter.init chunk_configs = Ok ms ->
  exists css by_size,
    MultiSizeTextSplitter.split_by_size ms d = Ok by_size /\
    Dict.keys by_size
    = first_occurrences (map config_key (configs_of chunk_configs)) /\
    Forall2
      (fun cfg cs =>
         exists s,
           CharacterTextSplitter.init (fst cfg) (snd cfg) = Ok s /\
           CharacterTextSplitter.split s d = Ok cs /\
           Dict.get (config_key cfg) by_size = Some cs)
      (configs_of chunk_configs) css /\
    MultiSizeTextSplitter.split ms d = Ok (List.concat css) /\
    (NoDup (configs_of chunk_configs) ->
     Dict.keys by_size = map config_key (configs_of chunk_configs)).
Proof.
  intros Hinit. apply multi_init_inv in Hinit as [Hvalid Hss].
  set (cfgs := configs_of chunk_configs) in *.
  assert (Forall (fun s => chunk_overlap s < chunk_size s) (splitters ms)) as Hok.
  { rewrite Hss. apply Forall_map. exact Hvalid. }
  destruct (splits_total _ d Hok) as [css Hcss].
  exists css,
    (set_all (combine (map MultiSizeTextSplitter.size_key (splitters ms)) css)
       Dict.empty).
  assert (Dict.keys
            (set_all (combine (map MultiSizeTextSplitter.size_key
                                 (splitters ms)) css) Dict.empty)
          = first_occurrences (map config_key cfgs)) as Hkeys.
  { rewrite keys_set_all. simpl.
    rewrite forallb_filter_id by (apply forallb_forall; reflexivity).
    rewrite fst_combine.
    + rewrite Hss, map_map. reflexivity.
    + rewrite length_map. now apply Forall2_length in Hcss. }
  split; [now apply split_by_size_loop|]. split; [|split; [|split]].
  - exact Hkeys.
  - pose proof (keyed_chunks_functional _ _ _ Hcss) as Hfun.
    assert (forall s cs,
               In (s, cs) (combine (splitters ms) css) ->
               Dict.get (MultiSizeTextSplitter.size_key s)
                 (set_all (combine (map MultiSizeTextSplitter.size_key
                                      (splitters ms)) css) Dict.empty)
               = Some cs) as Hget.
    { intros s cs Hin. apply get_set_all; [exact Hfun|].
      clear -Hin. revert css Hin.
      induction (splitters ms) as [|s0 ss IH]; intros [|c0 css]; simpl; try tauto.
      intros [[= -> ->]|Hin]; [now left|right; now apply IH]. }
    clear Hfun Hkeys. revert Hget. generalize (set_all
      (combine (map MultiSizeTextSplitter.size_key (splitters ms)) css)
      Dict.empty) as by_size.
    rewrite Hss in *. clear Hss Hok. intros by_size Hget.
    revert css Hcss Hget. induction cfgs as [|cfg cfgs IH]; intros css Hcss Hget.
    + inversion Hcss. constructor.
    + inversion Hcss as [|? cs ? css' Hs Hcss']; subst.
      inversion Hvalid as [|? ? Hc Hvalid']; subst.
      constructor.
      * exists (splitter_of cfg). split; [now apply init_ok|].
        split; [exact Hs|]. apply (Hget (splitter_of cfg)). now left.
      * apply IH; [exact Hvalid'|exact Hcss'|].
        intros s c Hin. apply Hget. now right.
  - unfold MultiSizeTextSplitter.split.
    now rewrite (for_each_extend _ _ css).
  - intros Hnd. rewrite Hkeys. apply first_occurrences_id.
    apply NoDup_config_keys. exact Hnd.
Qed.

End MultiFacts.

(** C10. With the pair [(4, 2)] configured twice, [split_by_size] of
    ["abcdef"] has one entry for two configurations, its only key being
    ["4_2"]; storing under a key already present replaces the value, so the
    ChunkSet of the second configuration is the one kept; the flat [split]
    returns the chunks of both configurations. *)
Theorem duplicate_configuration_shares_one_key :
  let cfgs := [(4, 2); (4, 2)] in
  let d := text_of "abcdef" in
  let c := [text_of "abcd"; text_of "cdef"; text_of "ef"] in
  exists ms by_size,
    MultiSizeTextSplitter.init (Some cfgs) = Ok ms /\
    CharacterTextSplitter.split (mkCharacterTextSplitter 4 2) d = Ok c /\
    MultiSizeTextSplitter.split_by_size ms d = Ok by_size /\
    by_size = [("4_2"%string, c)] /\
    (List.length by_size < List.length cfgs)%nat /\
    (forall (k : string) (v1 v2 : list (list ascii)),
        Dict.setitem k v2 (Dict.setitem k v1 Dict.empty) = [(k, v2)]) /\
    MultiSizeTextSplitter.split ms d = Ok (c ++ c).
Proof.
  cbv zeta. eexists. eexists.
  split; [reflexivity|]. split; [reflexivity|]. split; [reflexivity|].
  split; [reflexivity|]. split; [simpl; lia|]. split; [|reflexivity].
  intros k v1 v2. simpl. now rewrite String.eqb_refl.
Qed.

(** C6, amended. For [(window_size = 1000, overlap_size = 500)] and a
    document of 1500 ['a'], [split] returns three chunks, the windows at
    offsets 0, 500 and 1000, that is [0,1000), [500,1500) and [1000,1500),
    of lengths 1000, 1000 and 500. *)
Theorem split_1500_a_gives_three_chunks :
  let d := repeat "a"%char 1500 in
  exists self,
    CharacterTextSplitter.init 1000 500 = Ok self /\
    CharacterTextSplitter.split self d
    = Ok [window d 0 1000; window d 500 1000; window d 1000 1000] /\
    window d 0 1000 = repeat "a"%char 1000 /\
    window d 500 1000 = repeat "a"%char 1000 /\
    window d 1000 1000 = repeat "a"%char 500.
Proof.
  cbv zeta. eexists. split; [reflexivity|].
  repeat split; vm_compute; reflexivity.
Qed.

(** C6 as stated fails: the split has three chunks, not two. *)
Lemma split_1500_a_not_two_chunks :
  exists self chunks,
    CharacterTextSplitter.init 1000 500 = Ok self /\
    CharacterTextSplitter.split self (repeat "a"%char 1500) = Ok chunks /\
    List.length chunks = 3%nat /\ List.length chunks <> 2%nat.
Proof.
  eexists. eexists. split; [reflexivity|].
  split; [vm_compute; reflexivity|]. split; [reflexivity|discriminate].
Qed.

(** C5 as stated fails: the split of the empty document has no chunk. *)
Lemma split_empty_document_not_one_chunk :
  exists self,
    CharacterTextSplitter.init 1000 500 = Ok self /\
    CharacterTextSplitter.split self (@nil ascii) = Ok [] /\
    CharacterTextSplitter.split self (@nil ascii) <> Ok [[]].
Proof.
  eexists. split; [reflexivity|]. split; [reflexivity|discriminate].
Qed.

(** C3 as stated fails: with [(3, 2)] on ["abcd"] the third of four chunks
    is ["cd"], shorter than the window although it is not the last. *)
Lemma split_inner_chunk_shorter_than_window :
  exists self chunks c,
    valid_config 3 2 /\
    CharacterTextSplitter.init 3 2 = Ok self /\
    CharacterTextSplitter.split self (text_of "abcd") = Ok chunks /\
    chunks = [text_of "abc"; text_of "bcd"; text_of "cd"; text_of "d"] /\
    nth_error chunks 2 = Some c /\
    (S 2 < List.length chunks)%nat /\
    Z.of_nat (List.length c) <> 3.
Proof.
  eexists. eexists. eexists.
  split; [unfold valid_config; lia|].
  split; [reflexivity|]. split; [reflexivity|]. split; [reflexivity|].
  split; [reflexivity|]. split; [simpl; lia|]. simpl. lia.
Qed.

Lemma split_chunks_at_stride_offsets_witness :
  exists self n,
    CharacterTextSplitter.init 4 2 = Ok self /\
    CharacterTextSplitter.split self (text_of "abcdef")
    = Ok (map (fun k => window (text_of "abcdef") (k * Z.to_nat (4 - 2)) (Z.to_nat 4))
              (seq 0 n)) /\
    forall k : nat,
      (k < n)%nat <-> (k * Z.to_nat (4 - 2) < List.length (text_of "abcdef"))%nat.
Proof.
  apply (@split_chunks_at_stride_offsets ascii 4 2 (text_of "abcdef")); lia.
Defined.

Lemma split_reconstructs_document_witness :
  exists self chunks,
    CharacterTextSplitter.init 4 2 = Ok self /\
    CharacterTextSplitter.split self (text_of "abcdef") = Ok chunks /\
    List.concat (remove_overlaps (Z.to_nat 2) chunks) = text_of "abcdef".
Proof.
  apply (@split_reconstructs_document ascii 4 2 (text_of "abcdef")).
  unfold valid_config. lia.
Defined.

Lemma split_chunk_lengths_witness :
  exists self chunks,
    CharacterTextSplitter.init 3 2 = Ok self /\
    CharacterTextSplitter.split self (text_of "abcd") = Ok chunks /\
    forall (k : nat) (c : list ascii),
      nth_error chunks k = Some c ->
      let i := (k * Z.to_nat (3 - 2))%nat in
      (i < List.length (text_of "abcd"))%nat /\
      List.length c = Nat.min (Z.to_nat 3) (List.length (text_of "abcd") - i) /\
      ((i + Z.to_nat 3 <= List.length (text_of "abcd"))%nat ->
       List.length c = Z.to_nat 3) /\
      (S k = List.length chunks ->
       List.length c = (List.length (text_of "abcd") - i)%nat /\
       (List.length c <= Z.to_nat 3)%nat).
Proof.
  apply (@split_chunk_lengths ascii 3 2 (text_of "abcd")).
  unfold valid_config. lia.
Defined.

Lemma split_empty_document_witness :
  exists self,
    CharacterTextSplitter.init 1000 500 = Ok self /\
    CharacterTextSplitter.split self (@nil ascii) = Ok [].
Proof.
  apply (@split_empty_document ascii 1000 500). lia.
Defined.

Lemma split_texts_is_concatenation_witness :
  (forall d1 d2 : list ascii, exists c1 c2,
      CharacterTextSplitter.split (mkCharacterTextSplitter 4 2) d1 = Ok c1 /\
      CharacterTextSplitter.split (mkCharacterTextSplitter 4 2) d2 = Ok c2 /\
      CharacterTextSplitter.split_texts (mkCharacterTextSplitter 4 2) [d1; d2]
      = Ok (c1 ++ c2)) /\
  (forall docs : list (list ascii), exists css,
      Forall2 (fun d c =>
                 CharacterTextSplitter.split (mkCharacterTextSplitter 4 2) d = Ok c)
              docs css /\
      CharacterTextSplitter.split_texts (mkCharacterTextSplitter 4 2) docs
      = Ok (List.concat css)).
Proof.
  apply (@split_texts_is_concatenation ascii 4 2 (mkCharacterTextSplitter 4 2)).
  reflexivity.
Defined.

Lemma split_by_size_groups_by_configuration_witness :
  exists css by_size,
    MultiSizeTextSplitter.split_by_size
      (mkMultiSizeTextSplitter
         [mkCharacterTextSplitter 1000 500; mkCharacterTextSplitter 500 250])
      (text_of "abcdef") = Ok by_size /\
    Dict.keys by_size
    = first_occurrences (map config_key (configs_of None)) /\
    Forall2
      (fun cfg cs =>
         exists s,
           CharacterTextSplitter.init (fst cfg) (snd cfg) = Ok s /\
           CharacterTextSplitter.split s (text_of "abcdef") = Ok cs /\
           Dict.get (config_key cfg) by_size = Some cs)
      (configs_of None) css /\
    MultiSizeTextSplitter.split
      (mkMultiSizeTextSplitter
         [mkCharacterTextSplitter 1000 500; mkCharacterTextSplitter 500 250])
      (text_of "abcdef") = Ok (List.concat css) /\
    (NoDup (configs_of None) ->
     Dict.keys by_size = map config_key (configs_of None)).
Proof.
  apply (@split_by_size_groups_by_configuration ascii None
           (mkMultiSizeTextSplitter
              [mkCharacterTextSplitter 1000 500; mkCharacterTextSplitter 500 250])
           (text_of "abcdef")).
  reflexivity.
Defined.

(** * Further properties of the splitters *)

Lemma range_length_ceil (len step : Z) :
  0 <= len -> 0 < step ->
  range_length 0 len step = (len + step - 1) / step.
Proof.
  intros Hlen Hstep. unfold range_length.
  destruct (Z.ltb_spec 0 step) as [_|]; [|lia].
  destruct (Z.ltb_spec 0 len) as [Hpos|Hz].
  - rewrite Z.sub_0_r.
    replace (len + step - 1) with (len - 1 + 1 * step) by lia.
    now rewrite Z.div_add by lia.
  - replace len with 0 by lia. simpl.
    symmetry. apply Z.div_small. lia.
Qed.

Section MoreSplitFacts.
Context {char : Type}.
Implicit Types (d text : list char) (self : CharacterTextSplitter).

(** X1. The number of chunks is [ceil(len(text) / stride)]. *)
Theorem split_chunk_count self text chunks :
  chunk_overlap self < chunk_size self ->
  CharacterTextSplitter.split self text = Ok chunks ->
  Z.of_nat (List.length chunks)
  = (Z.of_nat (List.length text) + (chunk_size self - chunk_overlap self) - 1)
    / (chunk_size self - chunk_overlap self).
Proof.
  intros H Hsplit. rewrite split_slices in Hsplit by exact H.
  injection Hsplit as <-. rewrite length_map, length_seq.
  rewrite range_length_ceil by lia.
  rewrite Z2Nat.id; [reflexivity|].
  apply Z.div_pos; lia.
Qed.

(** X2. With a positive window no chunk is empty. *)
Theorem split_chunks_nonempty self text chunks :
  0 < chunk_size self -> chunk_overlap self < chunk_size self ->
  CharacterTextSplitter.split self text = Ok chunks ->
  forall c, In c chunks -> c <> [].
Proof.
  intros Hcs H Hsplit c Hin.
  rewrite split_windows in Hsplit by lia. injection Hsplit as <-.
  apply in_map_iff in Hin as (k & <- & Hk).
  apply in_seq in Hk as [_ Hk]. simpl in Hk.
  apply (chunk_count_spec (chunk_size self) (chunk_overlap self)) in Hk;
    [|exact H].
  intros Hnil. apply (f_equal (@List.length _)) in Hnil.
  rewrite window_length in Hnil. simpl in Hnil. lia.
Qed.

(** X5. A splitter whose attributes give no forward stride does not loop:
    with [chunk_size = chunk_overlap] the [range] raises [ValueError],
    with [chunk_size < chunk_overlap] the [range] is empty and so is the
    result, whatever the text. *)
Theorem split_without_forward_stride self text :
  chunk_size self <= chunk_overlap self ->
  (chunk_size self = chunk_overlap self /\
   CharacterTextSplitter.split self text
   = Raise (ValueError "range() arg 3 must not be zero")) \/
  (chunk_size self < chunk_overlap self /\
   CharacterTextSplitter.split self text = Ok []).
Proof.
  intros H. unfold CharacterTextSplitter.split, py_range.
  destruct (Z.eqb_spec (chunk_size self - chunk_overlap self) 0) as [E|E].
  - left. split; [lia|reflexivity].
  - right. split; [lia|].
    unfold range_length.
    destruct (Z.ltb_spec 0 (chunk_size self - chunk_overlap self)); [lia|].
    destruct (Z.ltb_spec (Z.of_nat (List.length text)) 0); [lia|].
    reflexivity.
Qed.

(** X3. Consecutive chunks share the overlap: what is left of a chunk after
    its first [stride] characters is the first [chunk_overlap] characters
    of the next chunk. *)
Theorem split_consecutive_chunks_overlap self text chunks :
  0 <= chunk_overlap self -> chunk_overlap self < chunk_size self ->
  CharacterTextSplitter.split self text = Ok chunks ->
  forall (k : nat) (c1 c2 : list char),
    nth_error chunks k = Some c1 ->
    nth_error chunks (S k) = Some c2 ->
    skipn (Z.to_nat (chunk_size self - chunk_overlap self)) c1
    = firstn (Z.to_nat (chunk_overlap self)) c2.
Proof.
  intros Hco H Hsplit k c1 c2 H1 H2.
  rewrite split_windows in Hsplit by lia. injection Hsplit as <-.
  set (s := Z.to_nat (chunk_size self - chunk_overlap self)) in *.
  set (w := Z.to_nat (chunk_size self)) in *.
  set (n := Z.to_nat (range_length 0 (Z.of_nat (List.length text))
                        (chunk_size self - chunk_overlap self))) in *.
  assert (Hw : (w = Z.to_nat (chunk_overlap self) + s)%nat) by (subst w s; lia).
  assert (forall j c, nth_error (map (fun k => window text (k * s) w) (seq 0 n)) j
                      = Some c -> c = window text (j * s) w) as Hnth.
  { intros j c Hj. rewrite nth_error_map, nth_error_seq in Hj.
    destruct (Nat.ltb j n); simpl in Hj; congruence. }
  apply Hnth in H1, H2. subst c1 c2.
  rewrite skipn_window. unfold window.
  rewrite firstn_firstn. f_equal; [lia|f_equal; lia].
Qed.

(** X4. A non-empty text no longer than the stride comes back whole, as the
    only chunk. *)
Theorem split_short_text_is_one_chunk self text :
  0 <= chunk_overlap self -> chunk_overlap self < chunk_size self ->
  text <> [] ->
  Z.of_nat (List.length text) <= chunk_size self - chunk_overlap self ->
  CharacterTextSplitter.split self text = Ok [text].
Proof.
  intros Hco H Hne Hshort.
  rewrite split_windows by lia.
  assert (range_length 0 (Z.of_nat (List.length text))
            (chunk_size self - chunk_overlap self) = 1) as ->.
  { unfold range_length.
    destruct (Z.ltb_spec 0 (chunk_size self - chunk_overlap self)); [|lia].
    destruct (Z.ltb_spec 0 (Z.of_nat (List.length text))) as [Hpos|Hz].
    - rewrite Z.sub_0_r, Z.div_small by lia. reflexivity.
    - destruct text; [congruence|simpl in Hz; lia]. }
  simpl. unfold window. simpl. rewrite firstn_all2 by lia. reflexivity.
Qed.

End MoreSplitFacts.

(** ** The multi-configuration splitter *)

Lemma first_occurrences_full (l : list string) :
  List.length (first_occurrences l) = List.length l <-> NoDup l.
Proof.
  split.
  - intros Hlen.
    apply (@NoDup_incl_NoDup _ (first_occurrences l) l).
    + apply first_occurrences_NoDup.
    + lia.
    + intros x. apply first_occurrences_In.
  - intros H. now rewrite first_occurrences_id.
Qed.

Lemma setitem_fresh {V : Type} (k : string) (v : V) (d : Dict.t V) :
  ~ In k (Dict.keys d) -> Dict.setitem k v d = d ++ [(k, v)].
Proof.
  unfold Dict.keys. induction d as [|[k' v'] d IH]; simpl; intros Hk.
  - reflexivity.
  - destruct (String.eqb_spec k k') as [->|_]; [tauto|].
    rewrite IH by tauto. reflexivity.
Qed.

Lemma set_all_fresh {V : Type} (kvs : list (string * V)) (d : Dict.t V) :
  NoDup (Dict.keys d ++ map fst kvs) -> set_all kvs d = d ++ kvs.
Proof.
  revert d; induction kvs as [|[k v] kvs IH]; intros d Hnd; simpl.
  - now rewrite app_nil_r.
  - rewrite setitem_fresh.
    + rewrite IH; [now rewrite <- app_assoc|].
      unfold Dict.keys in *. rewrite map_app, <- app_assoc. exact Hnd.
    + simpl in Hnd. apply NoDup_remove_2 in Hnd.
      intros Hin. apply Hnd. apply in_or_app. now left.
Qed.

Lemma NoDup_size_keys (ss : list CharacterTextSplitter) :
  NoDup ss -> NoDup (map MultiSizeTextSplitter.size_key ss).
Proof.
  induction 1 as [|s ss Hnotin _ IH]; simpl; constructor; [|exact IH].
  intros Hin. apply in_map_iff in Hin as (s' & Hkey & Hin').
  apply size_key_inj in Hkey. now subst s'.
Qed.

Section MoreMultiFacts.
Context {char : Type}.
Implicit Types (d : list char) (ms : MultiSizeTextSplitter).

Lemma split_by_size_value ms d :
  Forall (fun s => chunk_overlap s < chunk_size s) (splitters ms) ->
  exists css,
    Forall2 (fun s cs => CharacterTextSplitter.split s d = Ok cs)
      (splitters ms) css /\
    MultiSizeTextSplitter.split_by_size ms d
    = Ok (set_all (combine (map MultiSizeTextSplitter.size_key (splitters ms)) css)
            Dict.empty) /\
    MultiSizeTextSplitter.split ms d = Ok (List.concat css).
Proof.
  intros Hok. destruct (splits_total _ d Hok) as [css Hcss].
  exists css. split; [exact Hcss|]. split.
  - now apply split_by_size_loop.
  - unfold MultiSizeTextSplitter.split. now rewrite (for_each_extend _ _ css).
Qed.

Lemma init_splitters_valid (chunk_configs : option (list (Z * Z))) ms :
  MultiSizeTextSplitter.init chunk_configs = Ok ms ->
  Forall (fun s => chunk_overlap s < chunk_size s) (splitters ms).
Proof.
  intros H. apply multi_init_inv in H as [Hvalid ->].
  apply Forall_map. exact Hvalid.
Qed.

Lemma split_by_size_keys (chunk_configs : option (list (Z * Z))) ms d by_size :
  MultiSizeTextSplitter.init chunk_configs = Ok ms ->
  MultiSizeTextSplitter.split_by_size ms d = Ok by_size ->
  Dict.keys by_size
  = first_occurrences (map config_key (configs_of chunk_configs)).
Proof.
  intros Hinit Hby.
  pose proof (init_splitters_valid _ _ Hinit) as Hok.
  destruct (split_by_size_value ms d Hok) as (css & Hcss & Heq & _).
  rewrite Heq in Hby. injection Hby as <-.
  rewrite keys_set_all. simpl.
  rewrite forallb_filter_id by (apply forallb_forall; reflexivity).
  rewrite fst_combine.
  - apply multi_init_inv in Hinit as [_ ->]. now rewrite map_map.
  - rewrite length_map. now apply Forall2_length in Hcss.
Qed.

(** X6. A successful construction holds one splitter per configured pair, in
    list order, each with the pair's two numbers, and every pair has
    [chunk_size > chunk_overlap]. *)
Theorem multi_init_builds_one_splitter_per_pair
  (chunk_configs : option (list (Z * Z))) ms :
  MultiSizeTextSplitter.init chunk_configs = Ok ms ->
  splitters ms
  = map (fun cfg => mkCharacterTextSplitter (fst cfg) (snd cfg))
        (match chunk_configs with
         | None => [(1000, 500); (500, 250)]
         | Some cfgs => cfgs
         end) /\
  Forall (fun s => chunk_overlap s < chunk_size s) (splitters ms).
Proof.
  intros H. split.
  - apply multi_init_inv in H as [_ ->]. now destruct chunk_configs.
  - now apply (init_splitters_valid chunk_configs).
Qed.

(** X7. Two splitters have the same [split_by_size] key only if they have the
    same [chunk_size] and the same [chunk_overlap]: different
    configurations never share an entry. *)
Theorem size_key_identifies_configuration (s1 s2 : CharacterTextSplitter) :
  MultiSizeTextSplitter.size_key s1 = MultiSizeTextSplitter.size_key s2 ->
  chunk_size s1 = chunk_size s2 /\ chunk_overlap s1 = chunk_overlap s2.
Proof.
  intros H. apply size_key_inj in H. now subst s2.
Qed.

(** X8. [split_by_size] has as many entries as there are configurations
    exactly when no pair is configured twice. *)
Theorem split_by_size_entry_count
  (chunk_configs : option (list (Z * Z))) ms d by_size :
  MultiSizeTextSplitter.init chunk_configs = Ok ms ->
  MultiSizeTextSplitter.split_by_size ms d = Ok by_size ->
  (List.length by_size <= List.length (splitters ms))%nat /\
  (List.length by_size = List.length (splitters ms)
   <-> NoDup (splitters ms)).
Proof.
  intros Hinit Hby.
  pose proof (split_by_size_keys _ _ _ _ Hinit Hby) as Hkeys.
  apply multi_init_inv in Hinit as [_ Hss].
  assert (List.length by_size
          = List.length (first_occurrences (map config_key (configs_of chunk_configs))))
    as Hlen by (rewrite <- Hkeys; unfold Dict.keys; now rewrite length_map).
  assert (map config_key (configs_of chunk_configs)
          = map MultiSizeTextSplitter.size_key (splitters ms)) as Hk
    by (now rewrite Hss, map_map).
  rewrite Hk in Hlen. rewrite Hlen.
  rewrite <- (length_map MultiSizeTextSplitter.size_key (splitters ms)).
  split; [apply first_occurrences_length|].
  rewrite first_occurrences_full. split.
  - apply NoDup_map_inv.
  - apply NoDup_size_keys.
Qed.

(** X9. When no pair is configured twice, the values of [split_by_size], taken
    in the order of its keys, concatenate to the flat [split]. *)
Theorem split_by_size_flattens_to_split
  (chunk_configs : option (list (Z * Z))) ms d by_size :
  MultiSizeTextSplitter.init chunk_configs = Ok ms ->
  NoDup (splitters ms) ->
  MultiSizeTextSplitter.split_by_size ms d = Ok by_size ->
  MultiSizeTextSplitter.split ms d = Ok (List.concat (map snd by_size)).
Proof.
  intros Hinit Hnd Hby.
  pose proof (init_splitters_valid _ _ Hinit) as Hok.
  destruct (split_by_size_value ms d Hok) as (css & Hcss & Heq & Hflat).
  rewrite Heq in Hby. injection Hby as <-.
  assert (List.length (map MultiSizeTextSplitter.size_key (splitters ms))
          = List.length css) as Hlen
    by (rewrite length_map; now apply Forall2_length in Hcss).
  rewrite set_all_fresh.
  - simpl. rewrite Hflat. do 2 f_equal.
    clear -Hlen. revert css Hlen.
    induction (map MultiSizeTextSplitter.size_key (splitters ms)) as [|k ks IH];
      intros [|c css] Hlen; simpl in *; try discriminate; [reflexivity|].
    f_equal. apply IH. lia.
  - simpl. rewrite fst_combine by exact Hlen.
    now apply NoDup_size_keys.
Qed.

(** X10. [split_texts] of the multi-configuration splitter goes document by
    document and, within a document, configuration by configuration. *)
Theorem multi_split_texts_is_document_major
  (chunk_configs : option (list (Z * Z))) ms (docs : list (list char)) :
  MultiSizeTextSplitter.init chunk_configs = Ok ms ->
  exists csss : list (list (list (list char))),
    Forall2
      (fun d css =>
         Forall2 (fun s cs => CharacterTextSplitter.split s d = Ok cs)
           (splitters ms) css)
      docs csss /\
    MultiSizeTextSplitter.split_texts ms docs
    = Ok (List.concat (map (@List.concat _) csss)).
Proof.
  intros Hinit. pose proof (init_splitters_valid _ _ Hinit) as Hok.
  assert (exists csss : list (list (list (list char))),
             Forall2
               (fun d css =>
                  Forall2 (fun s cs => CharacterTextSplitter.split s d = Ok cs)
                    (splitters ms) css)
               docs csss) as [csss Hcsss].
  { induction docs as [|d docs [csss IH]].
    - exists []. constructor.
    - destruct (splits_total _ d Hok) as [css Hcss].
      exists (css :: csss). now constructor. }
  exists csss. split; [exact Hcsss|].
  unfold MultiSizeTextSplitter.split_texts.
  rewrite (for_each_extend _ _ (map (@List.concat _) csss)); [reflexivity|].
  clear -Hcsss. induction Hcsss as [|d css docs csss Hd _ IH]; simpl;
    constructor; [|exact IH].
  unfold MultiSizeTextSplitter.split. now rewrite (for_each_extend _ _ css).
Qed.

End MoreMultiFacts.

(** * TextFileLoader *)

Example endswith_is_case_sensitive :
  endswith "notes.TXT" ".txt" = false /\ endswith "notes.txt" ".txt" = true /\
  endswith "txt" ".txt" = false /\ endswith ".txt" ".txt" = true.
Proof. repeat split. Qed.

Example load_directory_demo :
  TextFileLoader.load_documents (fun _ => true) (fun _ => false)
    demo_walk demo_join (demo_read true) (TextFileLoader.init "d" "utf-8")
  = (mkTextFileLoader [text_of "d/a.txt"; text_of "d/c.txt"] "d" "utf-8",
     inr [text_of "d/a.txt"; text_of "d/c.txt"]).
Proof. reflexivity. Qed.

Example load_rejects_markdown_file :
  TextFileLoader.load (fun _ => false) (fun _ => true)
    demo_walk demo_join (demo_read true) (TextFileLoader.init "d/b.md" "utf-8")
  = (TextFileLoader.init "d/b.md" "utf-8",
     Some (PyExn (ValueError
       "Provided path is neither a valid directory nor a .txt file."))).
Proof. reflexivity. Qed.

(** ** [endswith] *)

Lemma substring_whole (s : string) : substring 0 (String.length s) s = s.
Proof. induction s as [|c s IH]; simpl; [reflexivity|now rewrite IH]. Qed.

Lemma substring_after_prefix (p s : string) (m : nat) :
  substring (String.length p) m (p ++ s) = substring 0 m s.
Proof. induction p as [|c p IH]; simpl; [reflexivity|exact IH]. Qed.

Lemma append_length (p s : string) :
  String.length (p ++ s) = (String.length p + String.length s)%nat.
Proof. induction p as [|c p IH]; simpl; [reflexivity|now rewrite IH]. Qed.

Lemma substring_split (s : string) (k m : nat) :
  (k + m = String.length s)%nat ->
  s = (substring 0 k s ++ substring k m s)%string.
Proof.
  revert k; induction s as [|c s IH]; intros k H; simpl in *.
  - assert (k = 0%nat) as -> by lia. assert (m = 0%nat) as -> by lia. reflexivity.
  - destruct k as [|k]; simpl.
    + destruct m as [|m]; [discriminate|]. simpl in H.
      injection H as H. subst m. now rewrite substring_whole.
    + f_equal. apply IH. lia.
Qed.

Lemma endswith_spec (s suffix : string) :
  endswith s suffix = true <-> exists p, s = (p ++ suffix)%string.
Proof.
  unfold endswith. rewrite andb_true_iff, Nat.leb_le, String.eqb_eq. split.
  - intros [Hle Hsub].
    exists (substring 0 (String.length s - String.length suffix) s).
    rewrite <- Hsub at 2. apply substring_split. lia.
  - intros [p ->]. rewrite append_length. split; [lia|].
    replace (String.length p + String.length suffix - String.length suffix)%nat
      with (String.length p) by lia.
    rewrite substring_after_prefix. apply substring_whole.
Qed.

Lemma for_state_app {A S E : Type} (xs ys : list A)
  (body : A -> S -> S * option E) (st : S) :
  for_state (xs ++ ys) body st
  = match for_state xs body st with
    | (st', None) => for_state ys body st'
    | (st', Some e) => (st', Some e)
    end.
Proof.
  revert st; induction xs as [|x xs IH]; intros st; simpl; [reflexivity|].
  destruct (body x st) as [st' [e|]]; [reflexivity|apply IH].
Qed.

Section LoaderFacts.
Context {char io_error : Type}.
Variable isdir : string -> bool.
Variable isfile : string -> bool.
Variable walk : string -> list (string * list string * list string).
Variable join : string -> string -> string.
Variable read_text : string -> string -> io_error + list char.

Implicit Types (self : TextFileLoader char).

(** Reading a run of paths appends the texts read before the first
    failure and reports that failure. *)
Lemma read_run (paths : list string) self :
  for_state paths (TextFileLoader.read_into read_text) self
  = (mkTextFileLoader
       (documents self ++ fst (read_all read_text (encoding self) paths))
       (path self) (encoding self),
     option_map IOExn (snd (read_all read_text (encoding self) paths))).
Proof.
  revert self; induction paths as [|p paths IH]; intros self; simpl.
  - rewrite app_nil_r. now destruct self.
  - unfold TextFileLoader.read_into at 1.
    destruct (read_text p (encoding self)) as [e|text]; simpl.
    + rewrite app_nil_r. now destruct self.
    + rewrite IH. simpl.
      destruct (read_all read_text (encoding self) paths) as [texts r]. simpl.
      now rewrite <- app_assoc.
Qed.

Lemma load_files_flat (root : string) (files : list string) self :
  for_state files
    (fun file self =>
       if endswith file ".txt"
       then TextFileLoader.read_into read_text (join root file) self
       else (self, None))
    self
  = for_state (map (join root) (filter (fun file => endswith file ".txt") files))
      (TextFileLoader.read_into read_text) self.
Proof.
  revert self; induction files as [|file files IH]; intros self; simpl;
    [reflexivity|].
  destruct (endswith file ".txt"); simpl; [|apply IH].
  destruct (TextFileLoader.read_into read_text (join root file) self)
    as [self' [e|]]; [reflexivity|apply IH].
Qed.

Lemma load_directory_flat self :
  TextFileLoader.load_directory walk join read_text self
  = for_state (txt_paths join (walk (path self)))
      (TextFileLoader.read_into read_text) self.
Proof.
  unfold TextFileLoader.load_directory.
  generalize (walk (path self)) as entries. intros entries.
  revert self; induction entries as [|[[root dirs] files] entries IH];
    intros self; simpl; [reflexivity|].
  rewrite for_state_app, load_files_flat.
  destruct (for_state _ (TextFileLoader.read_into read_text) self)
    as [self' [e|]]; [reflexivity|apply IH].
Qed.

Lemma read_all_ok (enc : string) (paths : list string)
  (content : string -> list char) :
  (forall p, In p paths -> read_text p enc = inr (content p)) ->
  read_all read_text enc paths = (map content paths, None).
Proof.
  induction paths as [|p paths IH]; intros H; simpl; [reflexivity|].
  rewrite (H p) by (now left).
  rewrite IH by (intros q Hq; apply H; now right). reflexivity.
Qed.

Lemma read_all_fails (enc : string) (before after : list string) (p : string)
  (content : string -> list char) (e : io_error) :
  (forall q, In q before -> read_text q enc = inr (content q)) ->
  read_text p enc = inl e ->
  read_all read_text enc (before ++ p :: after) = (map content before, Some e).
Proof.
  induction before as [|q before IH]; intros H Hp; simpl.
  - now rewrite Hp.
  - rewrite (H q) by (now left).
    rewrite IH; [reflexivity| |exact Hp].
    intros q' Hq'. apply H. now right.
Qed.

(** [load] only appends: there is one list of new documents and one
    outcome, the same whatever the loader already holds. *)
Lemma load_uniform (p enc : string) :
  exists (new : list (list char)) (r : option (raised io_error)),
    forall ds,
      TextFileLoader.load isdir isfile walk join read_text
        (mkTextFileLoader ds p enc)
      = (mkTextFileLoader (ds ++ new) p enc, r).
Proof.
  unfold TextFileLoader.load. simpl.
  destruct (isdir p).
  - exists (fst (read_all read_text enc (txt_paths join (walk p)))),
      (option_map IOExn (snd (read_all read_text enc (txt_paths join (walk p))))).
    intros ds. rewrite load_directory_flat, read_run. reflexivity.
  - destruct (isfile p && endswith p ".txt").
    + unfold TextFileLoader.load_file, TextFileLoader.read_into. simpl.
      destruct (read_text p enc) as [e|text].
      * exists [], (Some (IOExn e)). intros ds. now rewrite app_nil_r.
      * exists [text], None. reflexivity.
    + eexists [], _. intros ds. now rewrite app_nil_r.
Qed.

(** X12. For a directory whose [.txt] files can all be read, [load_directory]
    appends the text of every file whose name ends in [".txt"], in the
    order of the walk, and of no other file. *)
Theorem load_directory_reads_txt_files self (content : string -> list char) :
  (forall p, In p (txt_paths join (walk (path self))) ->
             read_text p (encoding self) = inr (content p)) ->
  TextFileLoader.load_directory walk join read_text self
  = (mkTextFileLoader
       (documents self ++ map content (txt_paths join (walk (path self))))
       (path self) (encoding self),
     None).
Proof.
  intros H. rewrite load_directory_flat, read_run.
  now rewrite (read_all_ok _ _ content H).
Qed.

(** X13. When a file of the walk cannot be read, [load_directory] stops there
    with that exception; the documents read before it stay in the
    loader, and no later file is read. *)
Theorem load_directory_stops_at_first_failure self
  (before after : list string) (p : string)
  (content : string -> list char) (e : io_error) :
  txt_paths join (walk (path self)) = before ++ p :: after ->
  (forall q, In q before -> read_text q (encoding self) = inr (content q)) ->
  read_text p (encoding self) = inl e ->
  TextFileLoader.load_directory walk join read_text self
  = (mkTextFileLoader (documents self ++ map content before)
       (path self) (encoding self),
     Some (IOExn e)).
Proof.
  intros Hpaths Hbefore Hp. rewrite load_directory_flat, read_run, Hpaths.
  now rewrite (read_all_fails _ _ after _ content e Hbefore Hp).
Qed.

(** X11. [load] raises an exception of its own exactly when the path is not a
    directory and is not an existing file named [p ++ ".txt"]; it is then
    the [ValueError], and the loader is left as it was. *)
Theorem load_rejects_exactly_other_paths self :
  let other :=
    isdir (path self) = false /\
    ~ (isfile (path self) = true /\ exists p, path self = (p ++ ".txt")%string) in
  ((exists self' e,
       TextFileLoader.load isdir isfile walk join read_text self
       = (self', Some (PyExn e))) <-> other) /\
  (other ->
   TextFileLoader.load isdir isfile walk join read_text self
   = (self,
      Some (PyExn (ValueError
        "Provided path is neither a valid directory nor a .txt file.")))).
Proof.
  cbv zeta. unfold TextFileLoader.load.
  destruct (isdir (path self)) eqn:Hdir.
  - split; [split|].
    + intros (self' & e & H).
      rewrite load_directory_flat, read_run in H.
      destruct (snd (read_all _ _ _)); discriminate.
    + intros [? _]. discriminate.
    + intros [? _]. discriminate.
  - destruct (isfile (path self)) eqn:Hfile; simpl.
    + destruct (endswith (path self) ".txt") eqn:Hend.
      * apply endswith_spec in Hend.
        split; [split|].
        -- intros (self' & e & H).
           unfold TextFileLoader.load_file, TextFileLoader.read_into in H.
           destruct (read_text _ _); discriminate.
        -- intros [_ Hn]. exfalso. apply Hn. now split.
        -- intros [_ Hn]. exfalso. apply Hn. now split.
      * assert (~ exists p, path self = (p ++ ".txt")%string) as Hno.
        { intros Hp. apply endswith_spec in Hp. congruence. }
        split; [split|].
        -- intros _. split; [reflexivity|tauto].
        -- intros _. eexists _, _. reflexivity.
        -- reflexivity.
    + split; [split|].
      * intros _. split; [reflexivity|]. intros [? _]. discriminate.
      * intros _. eexists _, _. reflexivity.
      * reflexivity.
Qed.

(** X14. [load] only ever appends to [documents], and what it appends does not
    depend on what the loader holds already; [path] and [encoding] do not
    change. *)
Theorem load_only_appends self :
  exists (new : list (list char)) (r : option (raised io_error)),
    forall ds,
      TextFileLoader.load isdir isfile walk join read_text
        (mkTextFileLoader ds (path self) (encoding self))
      = (mkTextFileLoader (ds ++ new) (path self) (encoding self), r).
Proof. apply load_uniform. Qed.

(** X15. [documents] is never reset: a second [load_documents] on the same
    loader returns every document twice. *)
Theorem load_documents_twice_doubles (p enc : string)
  (self1 : TextFileLoader char) (docs : list (list char)) :
  TextFileLoader.load_documents isdir isfile walk join read_text
    (TextFileLoader.init p enc) = (self1, inr docs) ->
  exists self2,
    TextFileLoader.load_documents isdir isfile walk join read_text self1
    = (self2, inr (docs ++ docs)).
Proof.
  unfold TextFileLoader.load_documents, TextFileLoader.init.
  destruct (load_uniform p enc) as (new & r & Hload).
  rewrite (Hload []). simpl. destruct r as [e|]; [discriminate|].
  intros [= <- <-]. rewrite (Hload new). eexists. reflexivity.
Qed.

End LoaderFacts.

(** ** Instances *)

Lemma split_chunk_count_witness :
  Z.of_nat (List.length [text_of "abcd"; text_of "cdef"; text_of "ef"])
  = (Z.of_nat (List.length (text_of "abcdef")) + (4 - 2) - 1) / (4 - 2).
Proof.
  apply (@split_chunk_count ascii (mkCharacterTextSplitter 4 2)
           (text_of "abcdef")); [simpl; lia|reflexivity].
Defined.

Lemma split_chunks_nonempty_witness : text_of "ef" <> [].
Proof.
  apply (@split_chunks_nonempty ascii (mkCharacterTextSplitter 4 2)
           (text_of "abcdef") [text_of "abcd"; text_of "cdef"; text_of "ef"]);
    [simpl; lia|simpl; lia|reflexivity|simpl; auto].
Defined.

Lemma split_without_forward_stride_witness :
  (2 = 5 /\
   CharacterTextSplitter.split (mkCharacterTextSplitter 2 5) (text_of "abcdef")
   = Raise (ValueError "range() arg 3 must not be zero")) \/
  (2 < 5 /\
   CharacterTextSplitter.split (mkCharacterTextSplitter 2 5) (text_of "abcdef")
   = Ok []).
Proof.
  apply (@split_without_forward_stride ascii (mkCharacterTextSplitter 2 5)
           (text_of "abcdef")). simpl. lia.
Defined.

Lemma split_consecutive_chunks_overlap_witness :
  skipn (Z.to_nat (4 - 2)) (text_of "abcd") = firstn (Z.to_nat 2) (text_of "cdef").
Proof.
  apply (@split_consecutive_chunks_overlap ascii (mkCharacterTextSplitter 4 2)
           (text_of "abcdef") [text_of "abcd"; text_of "cdef"; text_of "ef"]
           ltac:(simpl; lia) ltac:(simpl; lia) eq_refl 0%nat);
    reflexivity.
Defined.

Lemma split_short_text_is_one_chunk_witness :
  CharacterTextSplitter.split (mkCharacterTextSplitter 1000 500) (text_of "abc")
  = Ok [text_of "abc"].
Proof.
  apply (@split_short_text_is_one_chunk ascii (mkCharacterTextSplitter 1000 500)
           (text_of "abc")); simpl; try lia. discriminate.
Defined.

Lemma multi_init_builds_one_splitter_per_pair_witness :
  splitters (mkMultiSizeTextSplitter
               [mkCharacterTextSplitter 4 2; mkCharacterTextSplitter 3 0])
  = map (fun cfg => mkCharacterTextSplitter (fst cfg) (snd cfg)) [(4, 2); (3, 0)] /\
  Forall (fun s => chunk_overlap s < chunk_size s)
    (splitters (mkMultiSizeTextSplitter
                  [mkCharacterTextSplitter 4 2; mkCharacterTextSplitter 3 0])).
Proof.
  apply (multi_init_builds_one_splitter_per_pair (Some [(4, 2); (3, 0)])).
  reflexivity.
Defined.

Lemma size_key_identifies_configuration_witness :
  chunk_size (mkCharacterTextSplitter 4 2) = chunk_size (mkCharacterTextSplitter 4 2) /\
  chunk_overlap (mkCharacterTextSplitter 4 2)
  = chunk_overlap (mkCharacterTextSplitter 4 2).
Proof.
  apply (size_key_identifies_configuration (mkCharacterTextSplitter 4 2)
           (mkCharacterTextSplitter 4 2)). reflexivity.
Defined.

Lemma split_by_size_entry_count_witness :
  (List.length [("4_2"%string, [text_of "abcd"; text_of "cdef"; text_of "ef"])]
   <= List.length [mkCharacterTextSplitter 4 2; mkCharacterTextSplitter 4 2])%nat /\
  (List.length [("4_2"%string, [text_of "abcd"; text_of "cdef"; text_of "ef"])]
   = List.length [mkCharacterTextSplitter 4 2; mkCharacterTextSplitter 4 2]
   <-> NoDup [mkCharacterTextSplitter 4 2; mkCharacterTextSplitter 4 2]).
Proof.
  apply (@split_by_size_entry_count ascii (Some [(4, 2); (4, 2)])
           (mkMultiSizeTextSplitter
              [mkCharacterTextSplitter 4 2; mkCharacterTextSplitter 4 2])
           (text_of "abcdef")); reflexivity.
Defined.

Lemma split_by_size_flattens_to_split_witness :
  MultiSizeTextSplitter.split
    (mkMultiSizeTextSplitter
       [mkCharacterTextSplitter 4 2; mkCharacterTextSplitter 3 0])
    (text_of "abcdef")
  = Ok (List.concat
          (map snd
             [("4_2"%string, [text_of "abcd"; text_of "cdef"; text_of "ef"]);
              ("3_0"%string, [text_of "abc"; text_of "def"])])).
Proof.
  apply (@split_by_size_flattens_to_split ascii (Some [(4, 2); (3, 0)])).
  - reflexivity.
  - simpl. repeat constructor; simpl; intuition discriminate.
  - reflexivity.
Defined.

Lemma multi_split_texts_is_document_major_witness :
  exists csss : list (list (list (list ascii))),
    Forall2
      (fun d css =>
         Forall2 (fun s cs => CharacterTextSplitter.split s d = Ok cs)
           [mkCharacterTextSplitter 4 2; mkCharacterTextSplitter 3 0] css)
      [text_of "abcdef"; text_of "xy"] csss /\
    MultiSizeTextSplitter.split_texts
      (mkMultiSizeTextSplitter
         [mkCharacterTextSplitter 4 2; mkCharacterTextSplitter 3 0])
      [text_of "abcdef"; text_of "xy"]
    = Ok (List.concat (map (@List.concat _) csss)).
Proof.
  apply (@multi_split_texts_is_document_major ascii (Some [(4, 2); (3, 0)])
           (mkMultiSizeTextSplitter
              [mkCharacterTextSplitter 4 2; mkCharacterTextSplitter 3 0])).
  reflexivity.
Defined.

Lemma load_directory_reads_txt_files_witness :
  TextFileLoader.load_directory demo_walk demo_join (demo_read true)
    (TextFileLoader.init "d" "utf-8")
  = (mkTextFileLoader
       ([] ++ map text_of (txt_paths demo_join (demo_walk "d")))
       "d" "utf-8",
     None).
Proof.
  apply (@load_directory_reads_txt_files ascii unit demo_walk demo_join
           (demo_read true) (TextFileLoader.init "d" "utf-8") text_of).
  intros p Hp. unfold demo_read. now rewrite andb_false_r.
Defined.

Lemma load_directory_stops_at_first_failure_witness :
  TextFileLoader.load_directory demo_walk demo_join (demo_read false)
    (TextFileLoader.init "d" "utf-8")
  = (mkTextFileLoader ([] ++ map text_of ["d/a.txt"%string]) "d" "utf-8",
     Some (IOExn tt)).
Proof.
  apply (@load_directory_stops_at_first_failure ascii unit demo_walk demo_join
           (demo_read false) (TextFileLoader.init "d" "utf-8")
           ["d/a.txt"%string] [] "d/c.txt" text_of tt).
  - reflexivity.
  - intros q [<-|[]]. reflexivity.
  - reflexivity.
Defined.

Lemma load_documents_twice_doubles_witness :
  exists self2,
    TextFileLoader.load_documents (fun _ => true) (fun _ => false)
      demo_walk demo_join (demo_read true)
      (mkTextFileLoader [text_of "d/a.txt"; text_of "d/c.txt"] "d" "utf-8")
    = (self2,
       inr ([text_of "d/a.txt"; text_of "d/c.txt"]
              ++ [text_of "d/a.txt"; text_of "d/c.txt"])).
Proof.
  apply (@load_documents_twice_doubles ascii unit (fun _ => true)
           (fun _ => false) demo_walk demo_join (demo_read true) "d" "utf-8").
  reflexivity.
Defined.
